(** * astchunk: the [NodeGroup] virtual node (src/astchunk/node_group.py)

    A shallow embedding of the class [NodeGroup] together with the small
    part of the Python object model it relies on: list objects and class
    instances live in a store and are handled through references, so that
    the aliasing between the caller's list and the group's [_nodes]
    attribute is visible, and every method is a computation that may
    raise. *)

From Stdlib Require Import ZArith DecimalString.
From Stdlib.Strings Require Import Byte.
From stdpp Require Import base option list strings gmap.

Set Warnings "-register-all".
Open Scope Z_scope.

(** ** tree_sitter: the external node interface the class reads *)

Module ts.

(** [tree_sitter.Point]: a (row, column) pair. *)
Record Point := mkPoint { row : Z; column : Z }.

(** [tree_sitter.Node], restricted to the attributes that [NodeGroup]
    reads.  Nodes are immutable views, hence plain values. *)
Inductive Node := mkNode {
  start_byte : Z;
  end_byte : Z;
  start_point : Point;
  end_point : Point;
  type : string;
  text : list byte;
  children : list Node
}.

End ts.

(** ** The fragment of the Python runtime used by the class *)

Module Py.

Definition bytes := list byte.
Definition ref := positive.

Inductive exn :=
| AssertionError (msg : string)
| IndexError (msg : string)
| AttributeError (msg : string).

(** [Stuck] marks a reference that is not allocated in the store; no
    Python execution reaches it. *)
Inductive outcome (A : Type) :=
| Ok (a : A)
| Raise (e : exn)
| Stuck.
Arguments Ok {A} a.
Arguments Raise {A} e.
Arguments Stuck {A}.

(** The instance dictionary of a [NodeGroup] object: its only attribute
    is [_nodes], absent until [__init__] assigns it. *)
Record instance := mkInstance { _nodes : option ref }.

Record store := mkStore {
  lists : gmap ref (list ts.Node);
  objects : gmap ref instance
}.

Definition M (A : Type) : Type := store -> outcome A * store.

Definition ret {A} (a : A) : M A := fun s => (Ok a, s).

Definition bind {A B} (m : M A) (k : A -> M B) : M B :=
  fun s =>
    match m s with
    | (Ok a, s') => k a s'
    | (Raise e, s') => (Raise e, s')
    | (Stuck, s') => (Stuck, s')
    end.

Definition raise {A} (e : exn) : M A := fun s => (Raise e, s).

Declare Scope py_scope.
Delimit Scope py_scope with py.
Notation "x <- m ;; k" := (bind m (fun x => k))
  (at level 100, m at next level, right associativity) : py_scope.
Notation "m ;; k" := (bind m (fun _ => k))
  (at level 100, right associativity) : py_scope.
Open Scope py_scope.

(** [assert cond, msg] *)
Definition assert_ (cond : bool) (msg : string) : M unit :=
  if cond then ret tt else raise (AssertionError msg).

(** [object.__new__(cls)]: a fresh instance with an empty dictionary. *)
Definition object_new : M ref :=
  fun s =>
    let self := fresh (dom (objects s)) in
    (Ok self,
     mkStore (lists s) (<[self := mkInstance None]> (objects s))).

(** [self._nodes = v] *)
Definition set_nodes (self : ref) (v : ref) : M unit :=
  fun s =>
    match objects s !! self with
    | Some _ =>
        (Ok tt, mkStore (lists s) (<[self := mkInstance (Some v)]> (objects s)))
    | None => (Stuck, s)
    end.

(** [self._nodes] *)
Definition get_nodes (self : ref) : M ref :=
  fun s =>
    match objects s !! self with
    | Some o =>
        match _nodes o with
        | Some v => (Ok v, s)
        | None =>
            (Raise (AttributeError
                      "'NodeGroup' object has no attribute '_nodes'"), s)
        end
    | None => (Stuck, s)
    end.

(** The current contents of a list object. *)
Definition contents (l : ref) : M (list ts.Node) :=
  fun s =>
    match lists s !! l with
    | Some v => (Ok v, s)
    | None => (Stuck, s)
    end.

(** [len(l)] *)
Definition len (l : ref) : M Z :=
  v <- contents l;; ret (Z.of_nat (length v)).

(** [l[i]] for an integer index: a negative index counts from the end,
    an index outside the list raises [IndexError]. *)
Definition getitem (l : ref) (i : Z) : M ts.Node :=
  v <- contents l;;
  let j := if i <? 0 then i + Z.of_nat (length v) else i in
  match (if 0 <=? j then v !! Z.to_nat j else None) with
  | Some x => ret x
  | None => raise (IndexError "list index out of range")
  end.

(** Iterating a list object to exhaustion with a body that has no
    effect yields its elements in order. *)
Definition iter (l : ref) : M (list ts.Node) := contents l.

(** [sep.join(parts)] on [bytes]. *)
Fixpoint bytes_join (sep : bytes) (parts : list bytes) : bytes :=
  match parts with
  | [] => []
  | [p] => p
  | p :: rest => p ++ sep ++ bytes_join sep rest
  end.

(** [buf[a:b]] on [bytes] for non-negative bounds. *)
Definition slice (buf : bytes) (a b : Z) : bytes :=
  take (Z.to_nat (b - a)) (drop (Z.to_nat a) buf).

(** [str(i)] for an [int]: signed decimal. *)
Definition str_int (i : Z) : string := NilZero.string_of_int (Z.to_int i).

(** [sep.join(parts)] on [str]. *)
Fixpoint str_join (sep : string) (parts : list string) : string :=
  match parts with
  | [] => ""
  | [p] => p
  | p :: rest => p +:+ sep +:+ str_join sep rest
  end.

End Py.

(** ** The class [NodeGroup] *)

Module NodeGroup.
Import Py.

(** [__init__(self, nodes)]:
    [assert len(nodes) > 0, "..."; self._nodes = nodes].  The reference
    is stored as given: the group shares the list with its caller. *)
Definition __init__ (self nodes : ref) : M unit :=
  n <- len nodes;;
  assert_ (n >? 0) "NodeGroup must contain at least one node";;
  set_nodes self nodes.

(** The call [NodeGroup(nodes)]: allocate the instance, run [__init__]
    on it, and hand it back when [__init__] returns normally. *)
Definition construct (nodes : ref) : M ref :=
  self <- object_new;;
  __init__ self nodes;;
  ret self.

(** [self._nodes[0].start_byte] *)
Definition start_byte (self : ref) : M Z :=
  l <- get_nodes self;;
  n <- getitem l 0;;
  ret (ts.start_byte n).

(** [self._nodes[-1].end_byte] *)
Definition end_byte (self : ref) : M Z :=
  l <- get_nodes self;;
  n <- getitem l (-1);;
  ret (ts.end_byte n).

(** [self._nodes[0].start_point] *)
Definition start_point (self : ref) : M ts.Point :=
  l <- get_nodes self;;
  n <- getitem l 0;;
  ret (ts.start_point n).

(** [self._nodes[-1].end_point] *)
Definition end_point (self : ref) : M ts.Point :=
  l <- get_nodes self;;
  n <- getitem l (-1);;
  ret (ts.end_point n).

(** [self._nodes]: the list object itself, not a copy. *)
Definition children (self : ref) : M ref :=
  get_nodes self.

(** [self._nodes[-1].type] *)
Definition type (self : ref) : M string :=
  l <- get_nodes self;;
  n <- getitem l (-1);;
  ret (ts.type n).

(** [b"\n".join(n.text for n in self._nodes)] *)
Definition text (self : ref) : M bytes :=
  l <- get_nodes self;;
  ns <- iter l;;
  ret (bytes_join [x0a] (map ts.text ns)).

Section Repr.

(** The built-in [repr] on [str], left abstract. *)
Variable repr_str : string -> string.

(** [str(types)] for a list of [str]. *)
Definition str_list (types : list string) : string :=
  "[" +:+ str_join ", " (map repr_str types) +:+ "]".

(** [types = [n.type for n in self._nodes]], then the f-string
    [NodeGroup({types}, bytes={self.start_byte}..{self.end_byte})]. *)
Definition __repr__ (self : ref) : M string :=
  l <- get_nodes self;;
  ns <- iter l;;
  let types := map ts.type ns in
  sb <- start_byte self;;
  eb <- end_byte self;;
  ret ("NodeGroup(" +:+ str_list types +:+ ", bytes="
         +:+ str_int sb +:+ ".." +:+ str_int eb +:+ ")").

End Repr.

End NodeGroup.

Import Py.

(** ** Vocabulary of the statements *)

(** The element sequence a group holds in a store: the contents of the
    list object its [_nodes] attribute refers to. *)
Definition stored (s : store) (g : ref) : option (list ts.Node) :=
  o ← objects s !! g; l ← _nodes o; lists s !! l.

(** [holds s g l elems]: in [s], the instance [g] has [_nodes] bound to
    the list object [l], whose contents are [elems]. *)
Definition holds (s : store) (g l : ref) (elems : list ts.Node) : Prop :=
  objects s !! g = Some (mkInstance (Some l)) ∧ lists s !! l = Some elems.

(** The state [construct] leaves behind when it succeeds. *)
Definition constructed (s : store) (nodes : ref) : ref * store :=
  let g := fresh (dom (objects s)) in
  (g, mkStore (lists s) (<[g := mkInstance (Some nodes)]> (objects s))).

Definition msg_empty : string := "NodeGroup must contain at least one node".

(** Number of nodes of the subtree rooted at a node. *)
Fixpoint size (n : ts.Node) : nat :=
  match n with
  | ts.mkNode _ _ _ _ _ _ cs => S (sum_list_with size cs)
  end.

(** The sub-children of a sequence of elements, in order. *)
Definition sub_children (elems : list ts.Node) : list ts.Node :=
  concat (ts.children <$> elems).

(** What tree-sitter provides for a tree parsed from the buffer [src]:
    the text of a node is the slice of [src] over its byte range. *)
Definition sliced_from (src : bytes) (n : ts.Node) : Prop :=
  ts.text n = slice src (ts.start_byte n) (ts.end_byte n).

(** The reconstructed text as the specification words it: member slices
    with one separator byte between consecutive members. *)
Inductive piece :=
| Member (slice : bytes)
| Separator (b : byte).

Fixpoint joined (sep : byte) (members : list bytes) : list piece :=
  match members with
  | [] => []
  | [m] => [Member m]
  | m :: rest => Member m :: Separator sep :: joined sep rest
  end.

Definition piece_bytes (p : piece) : bytes :=
  match p with
  | Member m => m
  | Separator b => [b]
  end.

Definition flatten (ps : list piece) : bytes := concat (piece_bytes <$> ps).

Definition members_of (ps : list piece) : list bytes :=
  omap (fun p => match p with Member m => Some m | Separator _ => None end) ps.

Definition separators_of (ps : list piece) : list byte :=
  omap (fun p => match p with Separator b => Some b | Member _ => None end) ps.

(** Sum of the lengths of the member texts. *)
Definition total_text_length (elems : list ts.Node) : Z :=
  foldr (fun n acc => Z.of_nat (length (ts.text n)) + acc) 0 elems.

(** The slice of the buffer a member covers. *)
Definition member_slice (src : bytes) (n : ts.Node) : bytes :=
  slice src (ts.start_byte n) (ts.end_byte n).

(** Calling the accessor [m] of the group [g] in the store [s] returns a
    value, leaves the store as it was (in particular the element sequence
    the group holds), and a second call returns the same value. *)
Definition read_only {A} (g : ref) (m : M A) (s : store) : Prop :=
  (exists v, (m s).1 = Ok v)
  ∧ (m s).2 = s
  ∧ stored (m s).2 g = stored s g
  ∧ (m (m s).2).1 = (m s).1.

(** ** Sample data: a decorated definition [@d], blank line, [def] *)

Definition src_ex : bytes := [x40; x64; x0a; x0a; x64; x65; x66].

Definition name_ex : ts.Node :=
  ts.mkNode 1 2 (ts.mkPoint 0 1) (ts.mkPoint 0 2) "identifier" [x64] [].

Definition deco_ex : ts.Node :=
  ts.mkNode 0 2 (ts.mkPoint 0 0) (ts.mkPoint 0 2) "decorator"
    [x40; x64] [name_ex].

Definition def_ex : ts.Node :=
  ts.mkNode 4 7 (ts.mkPoint 2 0) (ts.mkPoint 2 3) "function_definition"
    [x64; x65; x66] [].

Definition store_of (elems : list ts.Node) : store :=
  mkStore {[ 1%positive := elems ]} ∅.

(** A stand-in for [repr] on identifiers without quotes or escapes. *)
Definition quote_ex (t : string) : string := "'" +:+ t +:+ "'".

(** ** The caller's side: list methods that mutate in place *)

(** [l.append(x)] *)
Definition append (l : ref) (x : ts.Node) : M unit :=
  fun s =>
    match lists s !! l with
    | Some v => (Ok tt, mkStore (<[l := v ++ [x]]> (lists s)) (objects s))
    | None => (Stuck, s)
    end.

(** [l.clear()] *)
Definition clear (l : ref) : M unit :=
  fun s =>
    match lists s !! l with
    | Some _ => (Ok tt, mkStore (<[l := []]> (lists s)) (objects s))
    | None => (Stuck, s)
    end.

(** ** Vocabulary of the further properties *)

Definition index_error : exn := IndexError "list index out of range".

(** What [v[i]] evaluates to on the contents [v] of a list. *)
Definition pick (v : list ts.Node) (i : Z) : outcome ts.Node :=
  let j := if i <? 0 then i + Z.of_nat (length v) else i in
  match (if 0 <=? j then v !! Z.to_nat j else None) with
  | Some x => Ok x
  | None => Raise index_error
  end.

Definition outcome_map {A B} (f : A -> B) (o : outcome A) : outcome B :=
  match o with
  | Ok a => Ok (f a)
  | Raise e => Raise e
  | Stuck => Stuck
  end.

(** What [__repr__] evaluates to on a group holding [elems]. *)
Definition repr_value (repr_str : string -> string) (elems : list ts.Node)
  : outcome string :=
  match pick elems 0 with
  | Ok x =>
      match pick elems (-1) with
      | Ok y =>
          Ok ("NodeGroup(" +:+ NodeGroup.str_list repr_str (map ts.type elems)
                +:+ ", bytes=" +:+ str_int (ts.start_byte x) +:+ ".."
                +:+ str_int (ts.end_byte y) +:+ ")")
      | Raise e => Raise e
      | Stuck => Stuck
      end
  | Raise e => Raise e
  | Stuck => Stuck
  end.

(** A computation that leaves the store as it found it, whatever its
    outcome. *)
Definition preserves {A} (m : M A) : Prop := forall s, (m s).2 = s.

(** Calling [m] in the store [s] leaves the store as it was, so also the
    sequence the group [g] holds, and calling it again returns the same
    outcome, value or exception. *)
Definition unaffected {A} (g : ref) (m : M A) (s : store) : Prop :=
  (m s).2 = s
  ∧ stored (m s).2 g = stored s g
  ∧ (m (m s).2).1 = (m s).1.

(** Elements in source order: every element starts no later than it
    ends, and ends no later than the next one starts. *)
Fixpoint source_ordered (elems : list ts.Node) : bool :=
  match elems with
  | [] => true
  | a :: rest =>
      (ts.start_byte a <=? ts.end_byte a)
      && match rest with
         | [] => true
         | b :: _ => ts.end_byte a <=? ts.start_byte b
         end
      && source_ordered rest
  end.

(** The byte range of a node lies inside the buffer. *)
Definition in_buffer (src : bytes) (n : ts.Node) : bool :=
  (0 <=? ts.start_byte n) && (ts.end_byte n <=? Z.of_nat (length src)).

(** Bytes of the buffer lying between consecutive elements. *)
Fixpoint total_gap (elems : list ts.Node) : Z :=
  match elems with
  | a :: rest =>
      match rest with
      | [] => 0
      | b :: _ => (ts.start_byte b - ts.end_byte a) + total_gap rest
      end
  | [] => 0
  end.

(** Consecutive elements are one byte apart and that byte of the buffer
    is a newline. *)
Fixpoint newline_gaps (src : bytes) (elems : list ts.Node) : bool :=
  match elems with
  | a :: rest =>
      match rest with
      | [] => true
      | b :: _ =>
          (ts.start_byte b =? ts.end_byte a + 1)
          && match src !! Z.to_nat (ts.end_byte a) with
             | Some c => Byte.eqb c x0a
             | None => false
             end
          && newline_gaps src rest
      end
  | [] => true
  end.

(** ** Further sample data: [@d], newline, [def]; two lists, one group *)

Definition src_nl : bytes := [x40; x64; x0a; x64; x65; x66].

Definition def_nl : ts.Node :=
  ts.mkNode 3 6 (ts.mkPoint 1 0) (ts.mkPoint 1 3) "function_definition"
    [x64; x65; x66] [].

Definition store_two : store :=
  mkStore {[ 1%positive := [deco_ex; def_ex]; 2%positive := [] ]}
          {[ 1%positive := mkInstance (Some 1%positive) ]}.

(** Three groups: over the pair, over the decorator, over the definition. *)
Definition store_three : store :=
  mkStore {[ 1%positive := [deco_ex; def_ex]; 2%positive := [deco_ex];
             3%positive := [def_ex] ]}
          {[ 1%positive := mkInstance (Some 1%positive);
             2%positive := mkInstance (Some 2%positive);
             3%positive := mkInstance (Some 3%positive) ]}.

(** ** Reasoning about computations *)

Section Monad.

Context {A B : Type}.
Implicit Types (m : M A) (k : A -> M B).

Lemma bind_ok m k s a s' : m s = (Ok a, s') -> bind m k s = k a s'.
Proof. unfold bind. by intros ->. Qed.

Lemma bind_raise m k s e s' : m s = (Raise e, s') -> bind m k s = (Raise e, s').
Proof. unfold bind. by intros ->. Qed.

End Monad.

Lemma contents_eq s l elems :
  lists s !! l = Some elems -> contents l s = (Ok elems, s).
Proof. unfold contents. by intros ->. Qed.

Lemma len_eq s l elems :
  lists s !! l = Some elems -> len l s = (Ok (Z.of_nat (length elems)), s).
Proof.
  intros H. unfold len. by rewrite (bind_ok _ _ _ _ _ (contents_eq _ _ _ H)).
Qed.

Lemma get_nodes_eq s g l :
  objects s !! g = Some (mkInstance (Some l)) -> get_nodes g s = (Ok l, s).
Proof. unfold get_nodes. by intros ->. Qed.

(** ** Construction *)

Lemma init_empty s self nodes :
  lists s !! nodes = Some [] ->
  NodeGroup.__init__ self nodes s = (Raise (AssertionError msg_empty), s).
Proof.
  intros H. unfold NodeGroup.__init__.
  rewrite (bind_ok _ _ _ _ _ (len_eq _ _ _ H)). reflexivity.
Qed.

Lemma init_nonempty s self nodes elems :
  lists s !! nodes = Some elems -> elems ≠ [] -> is_Some (objects s !! self) ->
  NodeGroup.__init__ self nodes s
  = (Ok tt, mkStore (lists s) (<[self := mkInstance (Some nodes)]> (objects s))).
Proof.
  intros H Hne [o Ho]. unfold NodeGroup.__init__.
  rewrite (bind_ok _ _ _ _ _ (len_eq _ _ _ H)).
  destruct elems as [|x r]; [done|].
  unfold bind, assert_, ret, set_nodes; simpl. by rewrite Ho.
Qed.

Lemma construct_nonempty s nodes elems :
  lists s !! nodes = Some elems -> elems ≠ [] ->
  NodeGroup.construct nodes s
  = (Ok (constructed s nodes).1, (constructed s nodes).2).
Proof.
  intros H Hne. unfold NodeGroup.construct.
  rewrite (bind_ok _ _ s (fresh (dom (objects s)))
             (mkStore (lists s)
                (<[fresh (dom (objects s)) := mkInstance None]> (objects s))))
    by reflexivity.
  erewrite bind_ok; [|eapply init_nonempty; simpl; eauto].
  - unfold ret, constructed; simpl. by rewrite insert_insert_eq.
  - simpl. rewrite lookup_insert_eq. eauto.
Qed.

Lemma construct_empty s nodes :
  lists s !! nodes = Some [] ->
  (NodeGroup.construct nodes s).1 = Raise (AssertionError msg_empty).
Proof.
  intros H. unfold NodeGroup.construct.
  rewrite (bind_ok _ _ s (fresh (dom (objects s)))
             (mkStore (lists s)
                (<[fresh (dom (objects s)) := mkInstance None]> (objects s))))
    by reflexivity.
  erewrite bind_raise; [|by apply init_empty]. reflexivity.
Qed.

Lemma constructed_holds s nodes elems :
  lists s !! nodes = Some elems ->
  holds (constructed s nodes).2 (constructed s nodes).1 nodes elems.
Proof.
  intros H. split; simpl; [apply lookup_insert_eq | exact H].
Qed.

Lemma holds_stored s g l elems : holds s g l elems -> stored s g = Some elems.
Proof. intros [Hg Hl]. unfold stored. rewrite Hg. simpl. exact Hl. Qed.

(** A successful construction determines its result. *)
Lemma construct_inv s nodes g s' :
  NodeGroup.construct nodes s = (Ok g, s') ->
  exists elems, lists s !! nodes = Some elems ∧ elems ≠ [] ∧
                (g, s') = constructed s nodes.
Proof.
  intros Hc. destruct (lists s !! nodes) as [elems|] eqn:H.
  - destruct elems as [|x r].
    + pose proof (construct_empty _ _ H) as He. rewrite Hc in He. discriminate.
    + exists (x :: r). split; [done|]. split; [done|].
      rewrite (construct_nonempty _ _ _ H) in Hc by done.
      injection Hc as <- <-. reflexivity.
  - exfalso. revert Hc.
    unfold NodeGroup.construct, NodeGroup.__init__, len.
    rewrite (bind_ok _ _ s (fresh (dom (objects s)))
               (mkStore (lists s)
                  (<[fresh (dom (objects s)) := mkInstance None]> (objects s))))
      by reflexivity.
    unfold bind, contents; simpl. rewrite H. discriminate.
Qed.

(** ** Element access *)

Lemma getitem_head s l elems x :
  lists s !! l = Some elems -> head elems = Some x ->
  getitem l 0 s = (Ok x, s).
Proof.
  intros H Hx. unfold getitem.
  rewrite (bind_ok _ _ _ _ _ (contents_eq _ _ _ H)).
  destruct elems as [|y r]; [done|]. simpl in Hx. by injection Hx as ->.
Qed.

Lemma getitem_last s l elems y :
  lists s !! l = Some elems -> last elems = Some y ->
  getitem l (-1) s = (Ok y, s).
Proof.
  intros H Hy. unfold getitem.
  rewrite (bind_ok _ _ _ _ _ (contents_eq _ _ _ H)).
  assert (length elems ≠ 0%nat) as Hlen by (by destruct elems).
  rewrite last_lookup in Hy.
  change (-1 <? 0) with true. cbv iota.
  replace (0 <=? -1 + Z.of_nat (length elems)) with true
    by (symmetry; apply Z.leb_le; lia).
  replace (Z.to_nat (-1 + Z.of_nat (length elems))) with (pred (length elems))
    by lia.
  by rewrite Hy.
Qed.

Lemma holds_instance s g l elems :
  holds s g l elems -> objects s !! g = Some (mkInstance (Some l)).
Proof. by intros [? ?]. Qed.

Lemma holds_contents s g l elems : holds s g l elems -> lists s !! l = Some elems.
Proof. by intros [? ?]. Qed.

Create HintDb py discriminated.
#[local] Hint Resolve contents_eq len_eq get_nodes_eq getitem_head getitem_last
  holds_instance holds_contents : py.

(** One step of a computation whose first action is known to return. *)
Ltac py_step := erewrite bind_ok by (unfold iter; eauto with py).

(** ** The accessors on a group that holds [elems] *)

Section Accessors.

Variables (s : store) (g l : ref) (elems : list ts.Node).
Hypothesis Hholds : holds s g l elems.

Lemma start_byte_eq x :
  head elems = Some x -> NodeGroup.start_byte g s = (Ok (ts.start_byte x), s).
Proof. intros. unfold NodeGroup.start_byte. by do 2 py_step. Qed.

Lemma end_byte_eq y :
  last elems = Some y -> NodeGroup.end_byte g s = (Ok (ts.end_byte y), s).
Proof. intros. unfold NodeGroup.end_byte. by do 2 py_step. Qed.

Lemma start_point_eq x :
  head elems = Some x -> NodeGroup.start_point g s = (Ok (ts.start_point x), s).
Proof. intros. unfold NodeGroup.start_point. by do 2 py_step. Qed.

Lemma end_point_eq y :
  last elems = Some y -> NodeGroup.end_point g s = (Ok (ts.end_point y), s).
Proof. intros. unfold NodeGroup.end_point. by do 2 py_step. Qed.

Lemma children_eq : NodeGroup.children g s = (Ok l, s).
Proof. unfold NodeGroup.children. eauto with py. Qed.

Lemma type_eq y :
  last elems = Some y -> NodeGroup.type g s = (Ok (ts.type y), s).
Proof. intros. unfold NodeGroup.type. by do 2 py_step. Qed.

Lemma text_eq :
  NodeGroup.text g s = (Ok (bytes_join [x0a] (map ts.text elems)), s).
Proof. unfold NodeGroup.text. by do 2 py_step. Qed.

Lemma repr_eq repr_str x y :
  head elems = Some x -> last elems = Some y ->
  NodeGroup.__repr__ repr_str g s
  = (Ok ("NodeGroup(" +:+ NodeGroup.str_list repr_str (map ts.type elems)
           +:+ ", bytes=" +:+ str_int (ts.start_byte x) +:+ ".."
           +:+ str_int (ts.end_byte y) +:+ ")"), s).
Proof.
  intros Hx Hy. unfold NodeGroup.__repr__. do 2 py_step.
  rewrite (bind_ok _ _ _ _ _ (start_byte_eq _ Hx)).
  by rewrite (bind_ok _ _ _ _ _ (end_byte_eq _ Hy)).
Qed.

End Accessors.

(** ** Elements against their sub-children *)

Lemma size_children n : size n = S (sum_list_with size (ts.children n)).
Proof. by destruct n. Qed.

Lemma size_sub_children elems :
  (sum_list_with size (sub_children elems) + length elems
   = sum_list_with size elems)%nat.
Proof.
  unfold sub_children.
  induction elems as [|n r IH]; [done|].
  rewrite fmap_cons. simpl concat. rewrite sum_list_with_app. simpl.
  rewrite (size_children n). lia.
Qed.

Lemma elems_not_sub_children elems : elems ≠ [] -> elems ≠ sub_children elems.
Proof.
  intros Hne Heq. pose proof (size_sub_children elems) as Hs.
  rewrite <- Heq in Hs. destruct elems; [done|]. simpl in Hs. lia.
Qed.

(** ** The sample group, evaluated *)

Example construct_sample :
  (NodeGroup.construct 1%positive (store_of [deco_ex; def_ex])).1
  = Ok 1%positive.
Proof. reflexivity. Qed.

Example construct_no_list :
  (NodeGroup.construct 2%positive (store_of [deco_ex; def_ex])).1 = Stuck.
Proof. reflexivity. Qed.

Example text_sample :
  (g <- NodeGroup.construct 1%positive;; NodeGroup.text g)%py
    (store_of [deco_ex; def_ex])
  = (Ok [x40; x64; x0a; x64; x65; x66],
     (constructed (store_of [deco_ex; def_ex]) 1%positive).2).
Proof. reflexivity. Qed.

Example repr_sample :
  ((g <- NodeGroup.construct 1%positive;; NodeGroup.__repr__ quote_ex g)%py
     (store_of [deco_ex; def_ex])).1
  = Ok "NodeGroup(['decorator', 'function_definition'], bytes=0..7)".
Proof. reflexivity. Qed.

Example start_byte_before_init :
  ((g <- object_new;; NodeGroup.start_byte g)%py (store_of [def_ex])).1
  = Raise (AttributeError "'NodeGroup' object has no attribute '_nodes'").
Proof. reflexivity. Qed.

(** ** The claims *)

(** C1. Constructing a group from an empty list raises at once, the
    assertion failing before anything is stored in the instance;
    constructing from a non-empty list succeeds and the group holds that
    list; hence every constructed group holds at least one element. *)
Theorem C1_construct_requires_nonempty s nodes elems :
  lists s !! nodes = Some elems ->
  (elems = [] ->
   (NodeGroup.construct nodes s).1 = Raise (AssertionError msg_empty)
   ∧ forall self,
       NodeGroup.__init__ self nodes s = (Raise (AssertionError msg_empty), s))
  ∧ (elems ≠ [] ->
     exists g s', NodeGroup.construct nodes s = (Ok g, s')
                  ∧ stored s' g = Some elems)
  ∧ (forall g s', NodeGroup.construct nodes s = (Ok g, s') ->
     exists x rest, stored s' g = Some (x :: rest)).
Proof.
  intros H. split; [|split].
  - intros ->. split; [by apply construct_empty|].
    intros self. by apply init_empty.
  - intros Hne. eexists _, _. split; [by eapply construct_nonempty|].
    eapply holds_stored, constructed_holds, H.
  - intros g s' Hc. destruct (construct_inv _ _ _ _ Hc) as (es & Hes & Hne & Heq).
    destruct es as [|x rest]; [done|]. exists x, rest.
    injection Heq as -> ->. eapply holds_stored, constructed_holds, Hes.
Qed.

Lemma C1_witness :
  (NodeGroup.construct 1%positive (store_of [])).1
  = Raise (AssertionError msg_empty)
  ∧ exists g s',
      NodeGroup.construct 1%positive (store_of [deco_ex; def_ex]) = (Ok g, s')
      ∧ stored s' g = Some [deco_ex; def_ex].
Proof.
  split.
  - apply (C1_construct_requires_nonempty (store_of []) 1%positive []);
      reflexivity.
  - apply (C1_construct_requires_nonempty
             (store_of [deco_ex; def_ex]) 1%positive [deco_ex; def_ex]);
      [reflexivity | discriminate].
Defined.

(** C2. A group constructed from a non-empty list reports the start byte
    and start point of the first element and the end byte and end point
    of the last element. *)
Theorem C2_span_first_last s nodes elems x y :
  lists s !! nodes = Some elems ->
  head elems = Some x ->
  last elems = Some y ->
  exists g s',
    NodeGroup.construct nodes s = (Ok g, s')
    ∧ NodeGroup.start_byte g s' = (Ok (ts.start_byte x), s')
    ∧ NodeGroup.end_byte g s' = (Ok (ts.end_byte y), s')
    ∧ NodeGroup.start_point g s' = (Ok (ts.start_point x), s')
    ∧ NodeGroup.end_point g s' = (Ok (ts.end_point y), s').
Proof.
  intros H Hx Hy.
  assert (elems ≠ []) as Hne by (by destruct elems).
  pose proof (constructed_holds _ _ _ H) as Hh.
  eexists _, _. split; [by eapply construct_nonempty|].
  split; [by eapply start_byte_eq|]. split; [by eapply end_byte_eq|].
  split; [by eapply start_point_eq | by eapply end_point_eq].
Qed.

Lemma C2_witness :
  exists g s',
    NodeGroup.construct 1%positive (store_of [deco_ex; def_ex]) = (Ok g, s')
    ∧ NodeGroup.start_byte g s' = (Ok 0, s')
    ∧ NodeGroup.end_byte g s' = (Ok 7, s')
    ∧ NodeGroup.start_point g s' = (Ok (ts.mkPoint 0 0), s')
    ∧ NodeGroup.end_point g s' = (Ok (ts.mkPoint 2 3), s').
Proof.
  apply (C2_span_first_last (store_of [deco_ex; def_ex]) 1%positive
           [deco_ex; def_ex] deco_ex def_ex); reflexivity.
Defined.

(** C3. The type of a group is the type of its last element, whatever
    the number and the types of the elements before it. *)
Theorem C3_type_is_last s nodes before y :
  lists s !! nodes = Some (before ++ [y]) ->
  exists g s',
    NodeGroup.construct nodes s = (Ok g, s')
    ∧ NodeGroup.type g s' = (Ok (ts.type y), s').
Proof.
  intros H.
  assert (before ++ [y] ≠ []) as Hne by (by destruct before).
  pose proof (constructed_holds _ _ _ H) as Hh.
  eexists _, _. split; [by eapply construct_nonempty|].
  eapply type_eq; [exact Hh|]. apply last_snoc.
Qed.

Lemma C3_witness :
  exists g s',
    NodeGroup.construct 1%positive (store_of [deco_ex; def_ex]) = (Ok g, s')
    ∧ NodeGroup.type g s' = (Ok "function_definition", s').
Proof.
  apply (C3_type_is_last (store_of [deco_ex; def_ex]) 1%positive
           [deco_ex] def_ex); reflexivity.
Defined.

(** C4. The children of a group are the list given at construction: the
    accessor returns that very list object, whose contents are the
    wrapped elements in their original order, and this sequence is never
    the sequence of the elements' own children. *)
Theorem C4_children_are_elements s nodes elems :
  lists s !! nodes = Some elems ->
  elems ≠ [] ->
  exists g s',
    NodeGroup.construct nodes s = (Ok g, s')
    ∧ NodeGroup.children g s' = (Ok nodes, s')
    ∧ lists s' !! nodes = Some elems
    ∧ elems ≠ sub_children elems.
Proof.
  intros H Hne.
  pose proof (constructed_holds _ _ _ H) as Hh.
  eexists _, _. split; [by eapply construct_nonempty|].
  split; [by eapply children_eq|].
  split; [exact H|]. by apply elems_not_sub_children.
Qed.

Lemma C4_witness :
  exists g s',
    NodeGroup.construct 1%positive (store_of [deco_ex; def_ex]) = (Ok g, s')
    ∧ NodeGroup.children g s' = (Ok 1%positive, s')
    ∧ lists s' !! 1%positive = Some [deco_ex; def_ex]
    ∧ [deco_ex; def_ex] ≠ sub_children [deco_ex; def_ex].
Proof.
  apply (C4_children_are_elements (store_of [deco_ex; def_ex]) 1%positive
           [deco_ex; def_ex]); [reflexivity | discriminate].
Defined.

(** ** Joining *)

Lemma joined_cons_cons sep m m' r :
  joined sep (m :: m' :: r) = Member m :: Separator sep :: joined sep (m' :: r).
Proof. reflexivity. Qed.

Lemma bytes_join_cons_cons sep m m' r :
  bytes_join sep (m :: m' :: r) = m ++ sep ++ bytes_join sep (m' :: r).
Proof. reflexivity. Qed.

Lemma bytes_join_flatten sep ms : bytes_join [sep] ms = flatten (joined sep ms).
Proof.
  unfold flatten. induction ms as [|m ms IH]; [done|].
  destruct ms as [|m' r].
  - simpl. by rewrite app_nil_r.
  - rewrite bytes_join_cons_cons, joined_cons_cons, IH. reflexivity.
Qed.

Lemma members_of_joined sep ms : members_of (joined sep ms) = ms.
Proof.
  unfold members_of. induction ms as [|m ms IH]; [done|].
  destruct ms as [|m' r]; [done|].
  rewrite joined_cons_cons. cbn [omap list_omap]. by rewrite IH.
Qed.

Lemma separators_of_joined sep ms :
  separators_of (joined sep ms) = replicate (pred (length ms)) sep.
Proof.
  unfold separators_of. induction ms as [|m ms IH]; [done|].
  destruct ms as [|m' r]; [done|].
  rewrite joined_cons_cons. cbn [omap list_omap]. by rewrite IH.
Qed.

Lemma texts_are_slices src elems :
  Forall (sliced_from src) elems ->
  map ts.text elems = map (member_slice src) elems.
Proof.
  induction 1 as [|n r Hn _ IH]; simpl; [done|]. by rewrite Hn, IH.
Qed.

Lemma length_bytes_join elems :
  elems ≠ [] ->
  Z.of_nat (length (bytes_join [x0a] (map ts.text elems)))
  = total_text_length elems + (Z.of_nat (length elems) - 1).
Proof.
  induction elems as [|n elems IH]; intros Hne; [done|].
  destruct elems as [|n' r].
  - simpl. lia.
  - change (map ts.text (n :: n' :: r))
      with (ts.text n :: ts.text n' :: map ts.text r).
    rewrite bytes_join_cons_cons, !length_app.
    change (total_text_length (n :: n' :: r))
      with (Z.of_nat (length (ts.text n)) + total_text_length (n' :: r)).
    specialize (IH ltac:(done)).
    change (ts.text n' :: map ts.text r) with (map ts.text (n' :: r)).
    simpl length in *. lia.
Qed.

(** C5. The text of a group is its member texts, each the member's slice
    of the source buffer, in order with one separator byte between
    consecutive members: n member slices and n - 1 separators for a
    group of n. *)
Theorem C5_text_joins_member_slices s nodes elems src :
  lists s !! nodes = Some elems ->
  elems ≠ [] ->
  Forall (sliced_from src) elems ->
  exists g s' ps,
    NodeGroup.construct nodes s = (Ok g, s')
    ∧ ps = joined x0a (map (member_slice src) elems)
    ∧ NodeGroup.text g s' = (Ok (flatten ps), s')
    ∧ members_of ps = map (member_slice src) elems
    ∧ length (members_of ps) = length elems
    ∧ S (length (separators_of ps)) = length elems.
Proof.
  intros H Hne Hsrc.
  pose proof (constructed_holds _ _ _ H) as Hh.
  eexists _, _, _. split; [by eapply construct_nonempty|].
  split; [reflexivity|].
  rewrite members_of_joined, separators_of_joined, length_replicate, length_map.
  split; [|split; [done|split; [done|]]].
  - rewrite (text_eq _ _ _ _ Hh), (texts_are_slices _ _ Hsrc).
    by rewrite bytes_join_flatten.
  - destruct elems; [done|]. simpl. lia.
Qed.

Lemma C5_witness :
  exists g s' ps,
    NodeGroup.construct 1%positive (store_of [deco_ex; def_ex]) = (Ok g, s')
    ∧ ps = joined x0a (map (member_slice src_ex) [deco_ex; def_ex])
    ∧ NodeGroup.text g s' = (Ok (flatten ps), s')
    ∧ members_of ps = map (member_slice src_ex) [deco_ex; def_ex]
    ∧ length (members_of ps) = 2%nat
    ∧ S (length (separators_of ps)) = 2%nat.
Proof.
  apply (C5_text_joins_member_slices (store_of [deco_ex; def_ex]) 1%positive
           [deco_ex; def_ex] src_ex);
    [reflexivity | discriminate | repeat constructor].
Defined.

(** C6. The reconstructed text is not authoritative: for the decorator
    and the definition of the sample buffer, separated by two bytes, the
    joined text differs from the slice of the buffer over the span of
    the group. *)
Theorem C6_text_differs_from_span_slice :
  exists s nodes a b src g s' t sb eb,
    lists s !! nodes = Some [a; b]
    ∧ sliced_from src a ∧ sliced_from src b
    ∧ ts.end_byte a < ts.start_byte b
    ∧ NodeGroup.construct nodes s = (Ok g, s')
    ∧ NodeGroup.text g s' = (Ok t, s')
    ∧ NodeGroup.start_byte g s' = (Ok sb, s')
    ∧ NodeGroup.end_byte g s' = (Ok eb, s')
    ∧ t ≠ slice src sb eb.
Proof.
  pose proof (constructed_holds (store_of [deco_ex; def_ex]) 1%positive
                [deco_ex; def_ex] eq_refl) as Hh.
  exists (store_of [deco_ex; def_ex]), 1%positive, deco_ex, def_ex, src_ex.
  eexists _, _, _, _, _.
  split; [reflexivity|]. split; [reflexivity|]. split; [reflexivity|].
  split; [reflexivity|].
  split; [by eapply construct_nonempty|].
  split; [by eapply text_eq|].
  split; [by eapply start_byte_eq|].
  split; [by eapply end_byte_eq|].
  simpl. discriminate.
Qed.

(** ** Accessors only read *)

Lemma read_only_returns {A} g (m : M A) s v : m s = (Ok v, s) -> read_only g m s.
Proof.
  intros H. unfold read_only. rewrite H. simpl. rewrite H. eauto.
Qed.

(** C8. A group constructed from the one-element list [[n]] answers as
    [n] does: same start and end byte, same start and end point, same
    type; its children are the list [[n]]; its text is the text of [n],
    with no separator. *)
Theorem C8_singleton_transparent s nodes n :
  lists s !! nodes = Some [n] ->
  exists g s',
    NodeGroup.construct nodes s = (Ok g, s')
    ∧ NodeGroup.start_byte g s' = (Ok (ts.start_byte n), s')
    ∧ NodeGroup.end_byte g s' = (Ok (ts.end_byte n), s')
    ∧ NodeGroup.start_point g s' = (Ok (ts.start_point n), s')
    ∧ NodeGroup.end_point g s' = (Ok (ts.end_point n), s')
    ∧ NodeGroup.type g s' = (Ok (ts.type n), s')
    ∧ NodeGroup.children g s' = (Ok nodes, s')
    ∧ lists s' !! nodes = Some [n]
    ∧ NodeGroup.text g s' = (Ok (ts.text n), s').
Proof.
  intros H.
  pose proof (constructed_holds _ _ _ H) as Hh.
  eexists _, _. split; [by eapply construct_nonempty|].
  split; [by eapply start_byte_eq|]. split; [by eapply end_byte_eq|].
  split; [by eapply start_point_eq|]. split; [by eapply end_point_eq|].
  split; [by eapply type_eq|]. split; [by eapply children_eq|].
  split; [exact H|]. by rewrite (text_eq _ _ _ _ Hh).
Qed.

Lemma C8_witness :
  exists g s',
    NodeGroup.construct 1%positive (store_of [def_ex]) = (Ok g, s')
    ∧ NodeGroup.start_byte g s' = (Ok 4, s')
    ∧ NodeGroup.end_byte g s' = (Ok 7, s')
    ∧ NodeGroup.start_point g s' = (Ok (ts.mkPoint 2 0), s')
    ∧ NodeGroup.end_point g s' = (Ok (ts.mkPoint 2 3), s')
    ∧ NodeGroup.type g s' = (Ok "function_definition", s')
    ∧ NodeGroup.children g s' = (Ok 1%positive, s')
    ∧ lists s' !! 1%positive = Some [def_ex]
    ∧ NodeGroup.text g s' = (Ok [x64; x65; x66], s').
Proof.
  apply (C8_singleton_transparent (store_of [def_ex]) 1%positive def_ex).
  reflexivity.
Defined.

(** C9. Construction checks nothing but non-emptiness: every non-empty
    list is accepted and held as given, whatever the order of its
    elements; for the definition followed by the decorator, the group
    ends before it starts. *)
Theorem C9_no_order_validation s nodes elems :
  lists s !! nodes = Some elems ->
  elems ≠ [] ->
  (exists g s', NodeGroup.construct nodes s = (Ok g, s')
                ∧ stored s' g = Some elems)
  ∧ (exists s0 l a b g s' sb eb,
       lists s0 !! l = Some [a; b]
       ∧ ts.start_byte b < ts.start_byte a
       ∧ NodeGroup.construct l s0 = (Ok g, s')
       ∧ NodeGroup.start_byte g s' = (Ok sb, s')
       ∧ NodeGroup.end_byte g s' = (Ok eb, s')
       ∧ eb < sb).
Proof.
  intros H Hne. split.
  - eexists _, _. split; [by eapply construct_nonempty|].
    eapply holds_stored, constructed_holds, H.
  - pose proof (constructed_holds (store_of [def_ex; deco_ex]) 1%positive
                  [def_ex; deco_ex] eq_refl) as Hh.
    exists (store_of [def_ex; deco_ex]), 1%positive, def_ex, deco_ex.
    eexists _, _, _, _.
    split; [reflexivity|]. split; [reflexivity|].
    split; [by eapply construct_nonempty|].
    split; [by eapply start_byte_eq|].
    split; [by eapply end_byte_eq|].
    reflexivity.
Qed.

Lemma C9_witness :
  exists g s',
    NodeGroup.construct 1%positive (store_of [def_ex; deco_ex]) = (Ok g, s')
    ∧ stored s' g = Some [def_ex; deco_ex].
Proof.
  apply (C9_no_order_validation (store_of [def_ex; deco_ex]) 1%positive
           [def_ex; deco_ex]); [reflexivity | discriminate].
Defined.

(** C10. The separator of the reconstructed text is the newline byte
    0x0A: the text is the member texts with a newline between
    consecutive members, and its length is the sum of the lengths of the
    member texts plus n - 1 for a group of n members. *)
Theorem C10_newline_separator_length s nodes elems :
  lists s !! nodes = Some elems ->
  elems ≠ [] ->
  exists g s' t,
    NodeGroup.construct nodes s = (Ok g, s')
    ∧ NodeGroup.text g s' = (Ok t, s')
    ∧ t = flatten (joined x0a (map ts.text elems))
    ∧ Byte.to_N x0a = 10%N
    ∧ Z.of_nat (length t)
      = total_text_length elems + (Z.of_nat (length elems) - 1).
Proof.
  intros H Hne.
  pose proof (constructed_holds _ _ _ H) as Hh.
  eexists _, _, _. split; [by eapply construct_nonempty|].
  split; [by eapply text_eq|].
  split; [apply bytes_join_flatten|].
  split; [reflexivity|]. by apply length_bytes_join.
Qed.

Lemma C10_witness :
  exists g s' t,
    NodeGroup.construct 1%positive (store_of [deco_ex; def_ex]) = (Ok g, s')
    ∧ NodeGroup.text g s' = (Ok t, s')
    ∧ t = flatten (joined x0a (map ts.text [deco_ex; def_ex]))
    ∧ Byte.to_N x0a = 10%N
    ∧ Z.of_nat (length t) = 5 + (2 - 1).
Proof.
  apply (C10_newline_separator_length (store_of [deco_ex; def_ex]) 1%positive
           [deco_ex; def_ex]); [reflexivity | discriminate].
Defined.

(** ** Accessors as functions of the held sequence *)

Lemma getitem_pick s l elems i :
  lists s !! l = Some elems -> getitem l i s = (pick elems i, s).
Proof.
  intros H. unfold getitem, pick.
  rewrite (bind_ok _ _ _ _ _ (contents_eq _ _ _ H)).
  by destruct (if 0 <=? _ then _ else _).
Qed.

Lemma field_of_pick {A} (f : ts.Node -> A) s g l elems i :
  holds s g l elems ->
  (l' <- get_nodes g;; n <- getitem l' i;; ret (f n))%py s
  = (outcome_map f (pick elems i), s).
Proof.
  intros [Hg Hl].
  rewrite (bind_ok _ _ _ _ _ (get_nodes_eq _ _ _ Hg)).
  unfold bind. rewrite (getitem_pick _ _ _ _ Hl).
  by destruct (pick elems i).
Qed.

Lemma text_of_holds s g l elems :
  holds s g l elems ->
  NodeGroup.text g s = (Ok (bytes_join [x0a] (map ts.text elems)), s).
Proof. intros H. by eapply text_eq. Qed.

Lemma repr_of_holds repr_str s g l elems :
  holds s g l elems ->
  NodeGroup.__repr__ repr_str g s = (repr_value repr_str elems, s).
Proof.
  intros H. unfold NodeGroup.__repr__, repr_value. do 2 py_step.
  unfold NodeGroup.start_byte, NodeGroup.end_byte.
  unfold bind at 1. rewrite (field_of_pick _ _ _ _ _ _ H).
  destruct (pick elems 0) as [x| |]; simpl; [|done..].
  unfold bind at 1. rewrite (field_of_pick _ _ _ _ _ _ H).
  by destruct (pick elems (-1)).
Qed.

Lemma stored_holds s g elems :
  stored s g = Some elems -> exists l, holds s g l elems.
Proof.
  unfold stored, holds. intros H.
  destruct (objects s !! g) as [[[l|]]|]; simpl in H; [|done..].
  by exists l.
Qed.

(** ** Construction and the rest of the store *)





(** ** Further properties of the class *)



(** X2. The group shares its list with the caller: the list returned by
    [children] is the one passed to the constructor, and after an
    element is appended to it the group holds the longer sequence and
    reports the type, end byte and end point of the appended element. *)
Theorem X2_append_is_visible s nodes elems x :
  lists s !! nodes = Some elems ->
  elems ≠ [] ->
  exists g s1 s2,
    NodeGroup.construct nodes s = (Ok g, s1)
    ∧ NodeGroup.children g s1 = (Ok nodes, s1)
    ∧ append nodes x s1 = (Ok tt, s2)
    ∧ stored s2 g = Some (elems ++ [x])
    ∧ NodeGroup.type g s2 = (Ok (ts.type x), s2)
    ∧ NodeGroup.end_byte g s2 = (Ok (ts.end_byte x), s2)
    ∧ NodeGroup.end_point g s2 = (Ok (ts.end_point x), s2).
Proof.
  intros H Hne.
  pose proof (constructed_holds _ _ _ H) as Hh.
  set (g := (constructed s nodes).1) in *.
  set (s1 := (constructed s nodes).2) in *.
  set (s2 := mkStore (<[nodes := elems ++ [x]]> (lists s1)) (objects s1)).
  assert (holds s2 g nodes (elems ++ [x])) as Hh2.
  { split; [apply Hh | apply lookup_insert_eq]. }
  exists g, s1, s2.
  split; [by eapply construct_nonempty|].
  split; [by eapply children_eq|].
  split; [unfold append; by rewrite (holds_contents _ _ _ _ Hh)|].
  split; [by eapply holds_stored|].
  split; [eapply type_eq; [exact Hh2 | apply last_snoc]|].
  split; [eapply end_byte_eq; [exact Hh2 | apply last_snoc]|].
  eapply end_point_eq; [exact Hh2 | apply last_snoc].
Qed.

Lemma X2_witness :
  exists g s1 s2,
    NodeGroup.construct 1%positive (store_of [deco_ex]) = (Ok g, s1)
    ∧ NodeGroup.children g s1 = (Ok 1%positive, s1)
    ∧ append 1%positive def_ex s1 = (Ok tt, s2)
    ∧ stored s2 g = Some [deco_ex; def_ex]
    ∧ NodeGroup.type g s2 = (Ok "function_definition", s2)
    ∧ NodeGroup.end_byte g s2 = (Ok 7, s2)
    ∧ NodeGroup.end_point g s2 = (Ok (ts.mkPoint 2 3), s2).
Proof.
  apply (X2_append_is_visible (store_of [deco_ex]) 1%positive [deco_ex] def_ex);
    [reflexivity | discriminate].
Defined.

(** X3. Non-emptiness is checked at construction only: once the caller
    clears the shared list, the group holds no element; the five
    accessors that index the list and [__repr__] raise [IndexError],
    while [text] returns the empty byte string. *)
Theorem X3_cleared_list_breaks_accessors repr_str s nodes elems :
  lists s !! nodes = Some elems ->
  elems ≠ [] ->
  exists g s1 s2,
    NodeGroup.construct nodes s = (Ok g, s1)
    ∧ clear nodes s1 = (Ok tt, s2)
    ∧ stored s2 g = Some []
    ∧ NodeGroup.start_byte g s2 = (Raise index_error, s2)
    ∧ NodeGroup.end_byte g s2 = (Raise index_error, s2)
    ∧ NodeGroup.start_point g s2 = (Raise index_error, s2)
    ∧ NodeGroup.end_point g s2 = (Raise index_error, s2)
    ∧ NodeGroup.type g s2 = (Raise index_error, s2)
    ∧ NodeGroup.__repr__ repr_str g s2 = (Raise index_error, s2)
    ∧ NodeGroup.text g s2 = (Ok [], s2).
Proof.
  intros H Hne.
  pose proof (constructed_holds _ _ _ H) as Hh.
  set (g := (constructed s nodes).1) in *.
  set (s1 := (constructed s nodes).2) in *.
  set (s2 := mkStore (<[nodes := []]> (lists s1)) (objects s1)).
  assert (holds s2 g nodes []) as Hh2.
  { split; [apply Hh | apply lookup_insert_eq]. }
  exists g, s1, s2.
  split; [by eapply construct_nonempty|].
  split; [unfold clear; by rewrite (holds_contents _ _ _ _ Hh)|].
  split; [by eapply holds_stored|].
  split; [exact (field_of_pick ts.start_byte _ _ _ _ 0 Hh2)|].
  split; [exact (field_of_pick ts.end_byte _ _ _ _ (-1) Hh2)|].
  split; [exact (field_of_pick ts.start_point _ _ _ _ 0 Hh2)|].
  split; [exact (field_of_pick ts.end_point _ _ _ _ (-1) Hh2)|].
  split; [exact (field_of_pick ts.type _ _ _ _ (-1) Hh2)|].
  split; [exact (repr_of_holds repr_str _ _ _ _ Hh2)|].
  exact (text_of_holds _ _ _ _ Hh2).
Qed.

Lemma X3_witness :
  exists g s1 s2,
    NodeGroup.construct 1%positive (store_of [deco_ex; def_ex]) = (Ok g, s1)
    ∧ clear 1%positive s1 = (Ok tt, s2)
    ∧ stored s2 g = Some []
    ∧ NodeGroup.start_byte g s2 = (Raise index_error, s2)
    ∧ NodeGroup.end_byte g s2 = (Raise index_error, s2)
    ∧ NodeGroup.start_point g s2 = (Raise index_error, s2)
    ∧ NodeGroup.end_point g s2 = (Raise index_error, s2)
    ∧ NodeGroup.type g s2 = (Raise index_error, s2)
    ∧ NodeGroup.__repr__ quote_ex g s2 = (Raise index_error, s2)
    ∧ NodeGroup.text g s2 = (Ok [], s2).
Proof.
  apply (X3_cleared_list_breaks_accessors quote_ex
           (store_of [deco_ex; def_ex]) 1%positive [deco_ex; def_ex]);
    [reflexivity | discriminate].
Defined.

(** X4. The answers of a group are determined by the sequence it holds:
    two groups, in the same or in different stores, that hold equal
    sequences return equal results (values or exceptions) from
    [start_byte], [end_byte], [start_point], [end_point], [type], [text]
    and [__repr__], and [children] returns for each a list object whose
    contents are that sequence.  Whether the two list objects are the
    same is not determined: two groups may wrap one list. *)
Theorem X4_accessors_depend_on_sequence repr_str s1 g1 s2 g2 elems :
  stored s1 g1 = Some elems ->
  stored s2 g2 = Some elems ->
  (NodeGroup.start_byte g1 s1).1 = (NodeGroup.start_byte g2 s2).1
  ∧ (NodeGroup.end_byte g1 s1).1 = (NodeGroup.end_byte g2 s2).1
  ∧ (NodeGroup.start_point g1 s1).1 = (NodeGroup.start_point g2 s2).1
  ∧ (NodeGroup.end_point g1 s1).1 = (NodeGroup.end_point g2 s2).1
  ∧ (NodeGroup.type g1 s1).1 = (NodeGroup.type g2 s2).1
  ∧ (NodeGroup.text g1 s1).1 = (NodeGroup.text g2 s2).1
  ∧ (NodeGroup.__repr__ repr_str g1 s1).1
    = (NodeGroup.__repr__ repr_str g2 s2).1
  ∧ exists l1 l2,
      NodeGroup.children g1 s1 = (Ok l1, s1)
      ∧ NodeGroup.children g2 s2 = (Ok l2, s2)
      ∧ lists s1 !! l1 = Some elems
      ∧ lists s2 !! l2 = Some elems.
Proof.
  intros [l1 H1]%stored_holds [l2 H2]%stored_holds.
  unfold NodeGroup.start_byte, NodeGroup.end_byte, NodeGroup.start_point,
    NodeGroup.end_point, NodeGroup.type.
  rewrite !(field_of_pick _ _ _ _ _ _ H1), !(field_of_pick _ _ _ _ _ _ H2).
  rewrite (text_of_holds _ _ _ _ H1), (text_of_holds _ _ _ _ H2).
  rewrite (repr_of_holds _ _ _ _ _ H1), (repr_of_holds _ _ _ _ _ H2).
  do 7 (split; [done|]). exists l1, l2.
  split; [by eapply children_eq|]. split; [by eapply children_eq|].
  split; [exact (holds_contents _ _ _ _ H1) | exact (holds_contents _ _ _ _ H2)].
Qed.

Lemma X4_witness :
  (NodeGroup.start_byte 1%positive store_two).1
  = (NodeGroup.start_byte 1%positive
       (constructed (store_of [deco_ex; def_ex]) 1%positive).2).1
  ∧ (NodeGroup.text 1%positive store_two).1
    = (NodeGroup.text 1%positive
         (constructed (store_of [deco_ex; def_ex]) 1%positive).2).1.
Proof.
  pose proof (X4_accessors_depend_on_sequence quote_ex
                store_two 1%positive
                (constructed (store_of [deco_ex; def_ex]) 1%positive).2
                1%positive [deco_ex; def_ex] eq_refl eq_refl) as H.
  split; [apply H | apply H].
Defined.

(** ** Elements in source order *)

Lemma source_ordered_cons a rest :
  source_ordered (a :: rest) = true ->
  ts.start_byte a <= ts.end_byte a ∧ source_ordered rest = true.
Proof.
  simpl. intros [[H1 _]%andb_prop H2]%andb_prop. split; [lia | done].
Qed.

Lemma source_ordered_next a b rest :
  source_ordered (a :: b :: rest) = true -> ts.end_byte a <= ts.start_byte b.
Proof. simpl. intros [[_ H]%andb_prop _]%andb_prop. lia. Qed.

Lemma ordered_after_head x rest n :
  source_ordered (x :: rest) = true -> n ∈ x :: rest ->
  ts.start_byte x <= ts.start_byte n.
Proof.
  revert x. induction rest as [|b rest IH]; intros x Ho Hn.
  - apply list_elem_of_singleton in Hn as ->. lia.
  - apply elem_of_cons in Hn as [->|Hn]; [lia|].
    pose proof (source_ordered_next _ _ _ Ho).
    destruct (source_ordered_cons _ _ Ho) as [? Ho'].
    specialize (IH b Ho' Hn). lia.
Qed.

Lemma ordered_before_last elems y n :
  source_ordered elems = true -> last elems = Some y -> n ∈ elems ->
  ts.end_byte n <= ts.end_byte y.
Proof.
  revert n. induction elems as [|a rest IH]; intros n Ho Hy Hn;
    [by inversion Hn|].
  destruct rest as [|b rest].
  - apply list_elem_of_singleton in Hn as ->. injection Hy as ->. lia.
  - rewrite last_cons_cons in Hy.
    destruct (source_ordered_cons _ _ Ho) as [_ Ho'].
    apply elem_of_cons in Hn as [->|Hn]; [|by apply IH].
    pose proof (source_ordered_next _ _ _ Ho).
    destruct (source_ordered_cons _ _ Ho') as [? _].
    assert (ts.end_byte b <= ts.end_byte y)
      by (apply IH; [done..|apply elem_of_cons; by left]).
    lia.
Qed.

Lemma ordered_span x y elems :
  source_ordered elems = true -> head elems = Some x -> last elems = Some y ->
  ts.start_byte x <= ts.end_byte y.
Proof.
  intros Ho Hx Hy. destruct elems as [|a rest]; [done|].
  injection Hx as ->.
  destruct (source_ordered_cons _ _ Ho) as [? _].
  assert (ts.end_byte x <= ts.end_byte y)
    by (eapply ordered_before_last; [done..|apply elem_of_cons; by left]).
  lia.
Qed.

(** X5. For elements in source order the span of the group is well
    formed and covers every member: the start byte is at most the end
    byte, and each member's byte range lies between them. *)
Theorem X5_ordered_span_covers_members s nodes elems x y :
  lists s !! nodes = Some elems ->
  head elems = Some x ->
  last elems = Some y ->
  source_ordered elems = true ->
  exists g s' sb eb,
    NodeGroup.construct nodes s = (Ok g, s')
    ∧ NodeGroup.start_byte g s' = (Ok sb, s')
    ∧ NodeGroup.end_byte g s' = (Ok eb, s')
    ∧ sb <= eb
    ∧ forall n, n ∈ elems ->
        sb <= ts.start_byte n ∧ ts.start_byte n <= ts.end_byte n
        ∧ ts.end_byte n <= eb.
Proof.
  intros H Hx Hy Ho.
  assert (elems ≠ []) as Hne by (by destruct elems).
  pose proof (constructed_holds _ _ _ H) as Hh.
  eexists _, _, _, _. split; [by eapply construct_nonempty|].
  split; [by eapply start_byte_eq|]. split; [by eapply end_byte_eq|].
  split; [by eapply ordered_span|].
  intros n Hn. split; [|split].
  - destruct elems as [|a rest]; [done|]. injection Hx as ->.
    by apply ordered_after_head with rest.
  - clear -Ho Hn. induction elems as [|a rest IH]; [by inversion Hn|].
    destruct (source_ordered_cons _ _ Ho) as [? Ho'].
    apply elem_of_cons in Hn as [->|Hn]; [done | by apply IH].
  - by eapply ordered_before_last.
Qed.

Lemma X5_witness :
  exists g s' sb eb,
    NodeGroup.construct 1%positive (store_of [deco_ex; def_ex]) = (Ok g, s')
    ∧ NodeGroup.start_byte g s' = (Ok sb, s')
    ∧ NodeGroup.end_byte g s' = (Ok eb, s')
    ∧ sb <= eb
    ∧ forall n, n ∈ [deco_ex; def_ex] ->
        sb <= ts.start_byte n ∧ ts.start_byte n <= ts.end_byte n
        ∧ ts.end_byte n <= eb.
Proof.
  apply (X5_ordered_span_covers_members (store_of [deco_ex; def_ex]) 1%positive
           [deco_ex; def_ex] deco_ex def_ex); reflexivity.
Defined.

(** ** Slices of the buffer *)

Lemma slice_glue src a b d c :
  0 <= a -> a <= b -> b + 1 <= d ->
  src !! Z.to_nat b = Some c ->
  slice src a b ++ [c] ++ slice src (b + 1) d = slice src a d.
Proof.
  intros Ha Hab Hbd Hc. unfold slice.
  replace (Z.to_nat (d - a))
    with (Z.to_nat (b - a) + S (Z.to_nat (d - (b + 1))))%nat by lia.
  rewrite <- take_take_drop. f_equal.
  rewrite drop_drop.
  replace (Z.to_nat a + Z.to_nat (b - a))%nat with (Z.to_nat b) by lia.
  rewrite (drop_S _ _ _ Hc). simpl.
  by replace (S (Z.to_nat b)) with (Z.to_nat (b + 1)) by lia.
Qed.

Lemma length_slice src a b :
  0 <= a -> a <= b -> b <= Z.of_nat (length src) ->
  Z.of_nat (length (slice src a b)) = b - a.
Proof.
  intros. unfold slice. rewrite length_take, length_drop. lia.
Qed.

Lemma join_newline_gaps src rest x y :
  source_ordered (x :: rest) = true ->
  newline_gaps src (x :: rest) = true ->
  0 <= ts.start_byte x ->
  last (x :: rest) = Some y ->
  bytes_join [x0a] (map (member_slice src) (x :: rest))
  = slice src (ts.start_byte x) (ts.end_byte y).
Proof.
  revert x. induction rest as [|b rest IH]; intros x Ho Hg Hx Hy.
  - by injection Hy as ->.
  - rewrite last_cons_cons in Hy.
    destruct (source_ordered_cons _ _ Ho) as [Hxx Ho'].
    pose proof (source_ordered_next _ _ _ Ho) as Hxb.
    simpl in Hg. apply andb_prop in Hg as [[Hb Hc]%andb_prop Hg'].
    apply Z.eqb_eq in Hb.
    destruct (src !! Z.to_nat (ts.end_byte x)) as [c|] eqn:Hsrc; [|done].
    apply byte_dec_bl in Hc as ->.
    change (map (member_slice src) (x :: b :: rest))
      with (member_slice src x :: member_slice src b
              :: map (member_slice src) rest).
    rewrite bytes_join_cons_cons.
    change (member_slice src b :: map (member_slice src) rest)
      with (map (member_slice src) (b :: rest)).
    rewrite (IH b Ho' Hg' ltac:(lia) Hy). unfold member_slice. rewrite Hb.
    apply slice_glue; [lia..| |done].
    assert (ts.start_byte b <= ts.end_byte y)
      by (eapply ordered_span; [exact Ho'|done..]).
    lia.
Qed.

Lemma text_length_gap src elems x y :
  source_ordered elems = true ->
  Forall (sliced_from src) elems ->
  Forall (fun n => in_buffer src n = true) elems ->
  head elems = Some x -> last elems = Some y ->
  total_text_length elems + total_gap elems
  = ts.end_byte y - ts.start_byte x.
Proof.
  intros Ho Hs Hb. revert x.
  induction elems as [|a rest IH]; intros x Hx Hy; [done|].
  injection Hx as <-.
  destruct (source_ordered_cons _ _ Ho) as [Haa Ho'].
  apply Forall_cons in Hs as [Hsa Hs']. apply Forall_cons in Hb as [Hba Hb'].
  unfold in_buffer in Hba. apply andb_prop in Hba as [? ?].
  assert (Z.of_nat (length (ts.text a)) = ts.end_byte a - ts.start_byte a)
    as Hlen by (rewrite Hsa; apply length_slice; lia).
  destruct rest as [|b rest].
  - injection Hy as <-. simpl. lia.
  - rewrite last_cons_cons in Hy.
    specialize (IH Ho' Hs' Hb' b eq_refl Hy).
    change (total_text_length (a :: b :: rest))
      with (Z.of_nat (length (ts.text a)) + total_text_length (b :: rest)).
    change (total_gap (a :: b :: rest))
      with ((ts.start_byte b - ts.end_byte a) + total_gap (b :: rest)).
    lia.
Qed.

(** X6. When the members are in source order and consecutive members are
    separated in the buffer by exactly one newline byte, the
    reconstructed text is exact: it equals the slice of the buffer over
    the span of the group. *)
Theorem X6_text_exact_for_newline_gaps s nodes elems src x y :
  lists s !! nodes = Some elems ->
  head elems = Some x ->
  last elems = Some y ->
  0 <= ts.start_byte x ->
  source_ordered elems = true ->
  Forall (sliced_from src) elems ->
  newline_gaps src elems = true ->
  exists g s' sb eb,
    NodeGroup.construct nodes s = (Ok g, s')
    ∧ NodeGroup.start_byte g s' = (Ok sb, s')
    ∧ NodeGroup.end_byte g s' = (Ok eb, s')
    ∧ NodeGroup.text g s' = (Ok (slice src sb eb), s').
Proof.
  intros H Hx Hy H0 Ho Hs Hg.
  assert (elems ≠ []) as Hne by (by destruct elems).
  pose proof (constructed_holds _ _ _ H) as Hh.
  eexists _, _, _, _. split; [by eapply construct_nonempty|].
  split; [by eapply start_byte_eq|]. split; [by eapply end_byte_eq|].
  rewrite (text_eq _ _ _ _ Hh), (texts_are_slices _ _ Hs).
  destruct elems as [|a rest]; [done|]. injection Hx as ->.
  by rewrite (join_newline_gaps src rest x y).
Qed.

Lemma X6_witness :
  exists g s' sb eb,
    NodeGroup.construct 1%positive (store_of [deco_ex; def_nl]) = (Ok g, s')
    ∧ NodeGroup.start_byte g s' = (Ok sb, s')
    ∧ NodeGroup.end_byte g s' = (Ok eb, s')
    ∧ NodeGroup.text g s' = (Ok (slice src_nl sb eb), s').
Proof.
  apply (X6_text_exact_for_newline_gaps (store_of [deco_ex; def_nl]) 1%positive
           [deco_ex; def_nl] src_nl deco_ex def_nl);
    [reflexivity | reflexivity | reflexivity | simpl; lia | reflexivity
    | repeat constructor | reflexivity].
Defined.

(** X7. For members in source order lying inside the buffer, the length
    of the reconstructed text is the length of the span, less the bytes
    lying between consecutive members, plus one separator per pair of
    consecutive members; so the text can equal the slice of the buffer
    over the span only when those gaps total n - 1 bytes. *)
Theorem X7_text_length_against_span s nodes elems src x y :
  lists s !! nodes = Some elems ->
  head elems = Some x ->
  last elems = Some y ->
  source_ordered elems = true ->
  Forall (sliced_from src) elems ->
  Forall (fun n => in_buffer src n = true) elems ->
  exists g s' t,
    NodeGroup.construct nodes s = (Ok g, s')
    ∧ NodeGroup.text g s' = (Ok t, s')
    ∧ Z.of_nat (length t)
      = (ts.end_byte y - ts.start_byte x) - total_gap elems
        + (Z.of_nat (length elems) - 1)
    ∧ (t = slice src (ts.start_byte x) (ts.end_byte y) ->
       total_gap elems = Z.of_nat (length elems) - 1).
Proof.
  intros H Hx Hy Ho Hs Hb.
  assert (elems ≠ []) as Hne by (by destruct elems).
  pose proof (constructed_holds _ _ _ H) as Hh.
  pose proof (text_length_gap _ _ _ _ Ho Hs Hb Hx Hy) as Hgap.
  pose proof (length_bytes_join _ Hne) as Hlen.
  eexists _, _, _. split; [by eapply construct_nonempty|].
  split; [by eapply text_eq|]. split; [lia|].
  intros Heq. rewrite Heq in Hlen.
  rewrite length_slice in Hlen; [lia| | |].
  - apply head_Some_elem_of in Hx.
    rewrite Forall_forall in Hb. specialize (Hb _ Hx).
    unfold in_buffer in Hb. apply andb_prop in Hb as [? ?]. lia.
  - by eapply ordered_span.
  - apply last_Some_elem_of in Hy.
    rewrite Forall_forall in Hb. specialize (Hb _ Hy).
    unfold in_buffer in Hb. apply andb_prop in Hb as [? ?]. lia.
Qed.

Lemma X7_witness :
  exists g s' t,
    NodeGroup.construct 1%positive (store_of [deco_ex; def_ex]) = (Ok g, s')
    ∧ NodeGroup.text g s' = (Ok t, s')
    ∧ Z.of_nat (length t) = (7 - 0) - 2 + (2 - 1)
    ∧ (t = slice src_ex 0 7 -> 2 = 2 - 1).
Proof.
  apply (X7_text_length_against_span (store_of [deco_ex; def_ex]) 1%positive
           [deco_ex; def_ex] src_ex deco_ex def_ex);
    [reflexivity | reflexivity | reflexivity | reflexivity
    | repeat constructor | repeat constructor].
Defined.

(** X8. On a constructed group [__repr__] returns the text
    [NodeGroup(] types [, bytes=] start [..] end [)]: the types of all
    elements in order, printed as a list, then the start byte of the
    first element and the end byte of the last, in decimal. *)
Theorem X8_repr_format repr_str s nodes elems x y :
  lists s !! nodes = Some elems ->
  head elems = Some x ->
  last elems = Some y ->
  exists g s',
    NodeGroup.construct nodes s = (Ok g, s')
    ∧ NodeGroup.__repr__ repr_str g s'
      = (Ok ("NodeGroup(" +:+
             ("[" +:+ str_join ", " (map repr_str (map ts.type elems)) +:+ "]")
             +:+ ", bytes=" +:+ str_int (ts.start_byte x) +:+ ".."
             +:+ str_int (ts.end_byte y) +:+ ")"), s').
Proof.
  intros H Hx Hy.
  assert (elems ≠ []) as Hne by (by destruct elems).
  pose proof (constructed_holds _ _ _ H) as Hh.
  eexists _, _. split; [by eapply construct_nonempty|].
  by rewrite (repr_eq _ _ _ _ Hh repr_str x y Hx Hy).
Qed.

Lemma X8_witness :
  exists g s',
    NodeGroup.construct 1%positive (store_of [deco_ex; def_ex]) = (Ok g, s')
    ∧ NodeGroup.__repr__ quote_ex g s'
      = (Ok "NodeGroup(['decorator', 'function_definition'], bytes=0..7)", s').
Proof.
  apply (X8_repr_format quote_ex (store_of [deco_ex; def_ex]) 1%positive
           [deco_ex; def_ex] deco_ex def_ex); reflexivity.
Defined.

(** ** Accessors never write *)

Lemma preserves_ret {A} (a : A) : preserves (ret a).
Proof. done. Qed.

Lemma preserves_bind {A B} (m : M A) (k : A -> M B) :
  preserves m -> (forall a, preserves (k a)) -> preserves (bind m k).
Proof.
  intros Hm Hk s. unfold bind. specialize (Hm s).
  destruct (m s) as [[a| |] s1]; simpl in *; subst; [apply Hk | done..].
Qed.

Lemma preserves_get_nodes g : preserves (get_nodes g).
Proof.
  intros s. unfold get_nodes.
  by destruct (objects s !! g) as [[[|]]|].
Qed.

Lemma preserves_contents l : preserves (contents l).
Proof. intros s. unfold contents. by destruct (lists s !! l). Qed.

Lemma preserves_getitem l i : preserves (getitem l i).
Proof.
  apply preserves_bind; [apply preserves_contents|].
  intros v s. cbv zeta. by case_match.
Qed.

#[local] Hint Resolve preserves_ret preserves_get_nodes preserves_contents
  preserves_getitem : py.

Ltac preserves_tac :=
  repeat first
    [ unfold iter; solve [eauto with py]
    | apply preserves_bind; [|intros ?] ].

Lemma preserves_start_byte g : preserves (NodeGroup.start_byte g).
Proof. unfold NodeGroup.start_byte. preserves_tac. Qed.

Lemma preserves_end_byte g : preserves (NodeGroup.end_byte g).
Proof. unfold NodeGroup.end_byte. preserves_tac. Qed.

(** X9. No accessor ever writes: in every store and for every
    reference, whether the call returns a value or raises, the store
    after the call is the store before it. *)
Theorem X9_accessors_never_write repr_str g :
  preserves (NodeGroup.start_byte g)
  ∧ preserves (NodeGroup.end_byte g)
  ∧ preserves (NodeGroup.start_point g)
  ∧ preserves (NodeGroup.end_point g)
  ∧ preserves (NodeGroup.children g)
  ∧ preserves (NodeGroup.type g)
  ∧ preserves (NodeGroup.text g)
  ∧ preserves (NodeGroup.__repr__ repr_str g).
Proof.
  split; [apply preserves_start_byte|]. split; [apply preserves_end_byte|].
  split; [unfold NodeGroup.start_point; preserves_tac|].
  split; [unfold NodeGroup.end_point; preserves_tac|].
  split; [apply preserves_get_nodes|].
  split; [unfold NodeGroup.type; preserves_tac|].
  split; [unfold NodeGroup.text; preserves_tac|].
  unfold NodeGroup.__repr__.
  apply preserves_bind; [apply preserves_get_nodes|]. intros l.
  apply preserves_bind; [apply preserves_contents|]. intros ns.
  apply preserves_bind; [apply preserves_start_byte|]. intros sb.
  apply preserves_bind; [apply preserves_end_byte|]. intros eb.
  apply preserves_ret.
Qed.

(** ** Groups over a concatenation *)

Lemma bytes_join_app sep l1 l2 :
  l1 ≠ [] -> l2 ≠ [] ->
  bytes_join sep (l1 ++ l2) = bytes_join sep l1 ++ sep ++ bytes_join sep l2.
Proof.
  intros H1 H2. induction l1 as [|a l1 IH]; [done|].
  destruct l1 as [|b l1].
  - destruct l2 as [|c l2]; [done|]. reflexivity.
  - change ((a :: b :: l1) ++ l2) with (a :: b :: (l1 ++ l2)).
    rewrite !bytes_join_cons_cons.
    change (b :: l1 ++ l2) with ((b :: l1) ++ l2).
    rewrite IH by done. by rewrite <- !app_assoc.
Qed.

(** X10. Groups compose along concatenation: a group holding
    [e1 ++ e2], both parts non-empty, starts where a group holding [e1]
    starts, ends where a group holding [e2] ends and has its type, and
    its text is the two texts with one newline between them. *)
Theorem X10_group_of_concatenation s g g1 g2 e1 e2 t1 t2 :
  stored s g = Some (e1 ++ e2) ->
  stored s g1 = Some e1 ->
  stored s g2 = Some e2 ->
  e1 ≠ [] -> e2 ≠ [] ->
  (NodeGroup.text g1 s).1 = Ok t1 ->
  (NodeGroup.text g2 s).1 = Ok t2 ->
  NodeGroup.start_byte g s = NodeGroup.start_byte g1 s
  ∧ NodeGroup.start_point g s = NodeGroup.start_point g1 s
  ∧ NodeGroup.end_byte g s = NodeGroup.end_byte g2 s
  ∧ NodeGroup.end_point g s = NodeGroup.end_point g2 s
  ∧ NodeGroup.type g s = NodeGroup.type g2 s
  ∧ NodeGroup.text g s = (Ok (t1 ++ [x0a] ++ t2), s).
Proof.
  intros [l H]%stored_holds [l1 H1]%stored_holds [l2 H2]%stored_holds
    Hne1 Hne2 Ht1 Ht2.
  rewrite (text_of_holds _ _ _ _ H1) in Ht1. injection Ht1 as <-.
  rewrite (text_of_holds _ _ _ _ H2) in Ht2. injection Ht2 as <-.
  destruct (proj2 (head_is_Some e1) Hne1) as [x Hx].
  destruct (proj2 (last_is_Some e2) Hne2) as [y Hy].
  assert (head (e1 ++ e2) = Some x) as Hx'
    by (destruct e1; [done | exact Hx]).
  assert (last (e1 ++ e2) = Some y) as Hy'
    by (rewrite last_app, Hy; done).
  rewrite (start_byte_eq _ _ _ _ H x Hx'), (start_byte_eq _ _ _ _ H1 x Hx).
  rewrite (start_point_eq _ _ _ _ H x Hx'), (start_point_eq _ _ _ _ H1 x Hx).
  rewrite (end_byte_eq _ _ _ _ H y Hy'), (end_byte_eq _ _ _ _ H2 y Hy).
  rewrite (end_point_eq _ _ _ _ H y Hy'), (end_point_eq _ _ _ _ H2 y Hy).
  rewrite (type_eq _ _ _ _ H y Hy'), (type_eq _ _ _ _ H2 y Hy).
  rewrite (text_of_holds _ _ _ _ H).
  rewrite map_app, bytes_join_app; [done| |].
  - by destruct e1.
  - by destruct e2.
Qed.

Lemma X10_witness :
  NodeGroup.start_byte 1%positive store_three
  = NodeGroup.start_byte 2%positive store_three
  ∧ NodeGroup.start_point 1%positive store_three
    = NodeGroup.start_point 2%positive store_three
  ∧ NodeGroup.end_byte 1%positive store_three
    = NodeGroup.end_byte 3%positive store_three
  ∧ NodeGroup.end_point 1%positive store_three
    = NodeGroup.end_point 3%positive store_three
  ∧ NodeGroup.type 1%positive store_three
    = NodeGroup.type 3%positive store_three
  ∧ NodeGroup.text 1%positive store_three
    = (Ok ([x40; x64] ++ [x0a] ++ [x64; x65; x66]), store_three).
Proof.
  apply (X10_group_of_concatenation store_three 1%positive 2%positive
           3%positive [deco_ex] [def_ex]);
    [reflexivity | reflexivity | reflexivity | discriminate | discriminate
    | reflexivity | reflexivity].
Defined.

(** ** Accessors and mutation *)

Lemma preserves_unaffected {A} g (m : M A) s : preserves m -> unaffected g m s.
Proof.
  intros H. unfold unaffected. rewrite !H. done.
Qed.

Lemma preserves_accessors repr_str g :
  preserves (NodeGroup.start_byte g)
  ∧ preserves (NodeGroup.end_byte g)
  ∧ preserves (NodeGroup.start_point g)
  ∧ preserves (NodeGroup.end_point g)
  ∧ preserves (NodeGroup.children g)
  ∧ preserves (NodeGroup.type g)
  ∧ preserves (NodeGroup.text g)
  ∧ preserves (NodeGroup.__repr__ repr_str g).
Proof.
  split; [apply preserves_start_byte|]. split; [apply preserves_end_byte|].
  split; [unfold NodeGroup.start_point; preserves_tac|].
  split; [unfold NodeGroup.end_point; preserves_tac|].
  split; [apply preserves_get_nodes|].
  split; [unfold NodeGroup.type; preserves_tac|].
  split; [unfold NodeGroup.text; preserves_tac|].
  unfold NodeGroup.__repr__.
  apply preserves_bind; [apply preserves_get_nodes|]. intros l.
  apply preserves_bind; [apply preserves_contents|]. intros ns.
  apply preserves_bind; [apply preserves_start_byte|]. intros sb.
  apply preserves_bind; [apply preserves_end_byte|]. intros eb.
  apply preserves_ret.
Qed.

(** C7, as amended. The accessors of a group have no side effects: on a
    constructed group every accessor, [__repr__] included, returns a
    value and leaves the store untouched, and in every later store,
    whatever has happened to it, a call of an accessor leaves the store
    and so the sequence the group holds unchanged, and the same call
    repeated at once returns the same result. *)
Theorem C7_accessors_read_only repr_str s nodes elems :
  lists s !! nodes = Some elems ->
  elems ≠ [] ->
  exists g s',
    NodeGroup.construct nodes s = (Ok g, s')
    ∧ stored s' g = Some elems
    ∧ read_only g (NodeGroup.start_byte g) s'
    ∧ read_only g (NodeGroup.end_byte g) s'
    ∧ read_only g (NodeGroup.start_point g) s'
    ∧ read_only g (NodeGroup.end_point g) s'
    ∧ read_only g (NodeGroup.children g) s'
    ∧ read_only g (NodeGroup.type g) s'
    ∧ read_only g (NodeGroup.text g) s'
    ∧ read_only g (NodeGroup.__repr__ repr_str g) s'
    ∧ forall s2,
        unaffected g (NodeGroup.start_byte g) s2
        ∧ unaffected g (NodeGroup.end_byte g) s2
        ∧ unaffected g (NodeGroup.start_point g) s2
        ∧ unaffected g (NodeGroup.end_point g) s2
        ∧ unaffected g (NodeGroup.children g) s2
        ∧ unaffected g (NodeGroup.type g) s2
        ∧ unaffected g (NodeGroup.text g) s2
        ∧ unaffected g (NodeGroup.__repr__ repr_str g) s2.
Proof.
  intros H Hne.
  pose proof (constructed_holds _ _ _ H) as Hh.
  destruct (proj2 (head_is_Some elems) Hne) as [x Hx].
  destruct (proj2 (last_is_Some elems) Hne) as [y Hy].
  eexists _, _. split; [by eapply construct_nonempty|].
  split; [by eapply holds_stored|].
  split; [eapply read_only_returns; by eapply start_byte_eq|].
  split; [eapply read_only_returns; by eapply end_byte_eq|].
  split; [eapply read_only_returns; by eapply start_point_eq|].
  split; [eapply read_only_returns; by eapply end_point_eq|].
  split; [eapply read_only_returns; by eapply children_eq|].
  split; [eapply read_only_returns; by eapply type_eq|].
  split; [eapply read_only_returns; by eapply text_eq|].
  split; [eapply read_only_returns; by eapply repr_eq|].
  intros s2.
  destruct (preserves_accessors repr_str (constructed s nodes).1)
    as (P1 & P2 & P3 & P4 & P5 & P6 & P7 & P8).
  repeat split; by apply preserves_unaffected.
Qed.

Lemma C7_witness :
  exists g s',
    NodeGroup.construct 1%positive (store_of [deco_ex; def_ex]) = (Ok g, s')
    ∧ stored s' g = Some [deco_ex; def_ex]
    ∧ read_only g (NodeGroup.start_byte g) s'
    ∧ read_only g (NodeGroup.end_byte g) s'
    ∧ read_only g (NodeGroup.start_point g) s'
    ∧ read_only g (NodeGroup.end_point g) s'
    ∧ read_only g (NodeGroup.children g) s'
    ∧ read_only g (NodeGroup.type g) s'
    ∧ read_only g (NodeGroup.text g) s'
    ∧ read_only g (NodeGroup.__repr__ quote_ex g) s'
    ∧ forall s2,
        unaffected g (NodeGroup.start_byte g) s2
        ∧ unaffected g (NodeGroup.end_byte g) s2
        ∧ unaffected g (NodeGroup.start_point g) s2
        ∧ unaffected g (NodeGroup.end_point g) s2
        ∧ unaffected g (NodeGroup.children g) s2
        ∧ unaffected g (NodeGroup.type g) s2
        ∧ unaffected g (NodeGroup.text g) s2
        ∧ unaffected g (NodeGroup.__repr__ quote_ex g) s2.
Proof.
  apply (C7_accessors_read_only quote_ex (store_of [deco_ex; def_ex])
           1%positive [deco_ex; def_ex]); [reflexivity | discriminate].
Defined.

(** C7, as first stated, fails: a group is not immutable after
    construction.  The group built over the list holding the decorator
    alone hands out that list as its children; once the definition is
    appended to it the group holds two elements instead of one, and
    [end_byte] and [type], called again, return other values. *)
Lemma C7_group_not_immutable :
  exists g s1 s2,
    NodeGroup.construct 1%positive (store_of [deco_ex]) = (Ok g, s1)
    ∧ (l <- NodeGroup.children g;; append l def_ex)%py s1 = (Ok tt, s2)
    ∧ stored s1 g = Some [deco_ex]
    ∧ stored s2 g = Some [deco_ex; def_ex]
    ∧ stored s2 g ≠ stored s1 g
    ∧ NodeGroup.end_byte g s1 = (Ok 2, s1)
    ∧ NodeGroup.end_byte g s2 = (Ok 7, s2)
    ∧ NodeGroup.type g s1 = (Ok "decorator", s1)
    ∧ NodeGroup.type g s2 = (Ok "function_definition", s2).
Proof.
  eexists _, _, _.
  split; [reflexivity|]. split; [reflexivity|].
  split; [reflexivity|]. split; [reflexivity|].
  split; [vm_compute; discriminate|].
  repeat split; reflexivity.
Qed.
